(** * tg2twi: relay of Telegram channel posts to Twitter

    A shallow embedding of [tg2twi.py] and the properties of its text
    transformer, its dispatcher and its retry wrapper.

    Python values are modelled as follows.
    - A [str] is the list of its Unicode code points ([N]); [len] counts
      code points, so the ellipsis U+2026 has length one, as in Python.
    - A Python [int] is a [Z]; lengths are compared as [Z] because
      [allowed_text_length] may be negative.
    - Logging, the Twitter client and raised exceptions are the effects of
      a small state-and-exception monad over a trace of events. *)

From Stdlib Require Import Ascii String DecimalString DecimalPos DecimalZ.
From Stdlib Require Import List ZArith NArith Lia Bool.
Import ListNotations.

Set Implicit Arguments.

(** ** Python strings *)

Module PyStr.

Definition str : Type := list N.

(** A Rocq string literal (ASCII) read as a Python [str]. *)
Definition py (s : string) : str := map N_of_ascii (list_ascii_of_string s).
Arguments py s%_string.

Definition len (s : str) : Z := Z.of_nat (length s).

(** [str(n)] for an [int]: decimal digits, a leading minus sign for
    negative numbers, ["0"] for zero. *)
Definition str_of_int (n : Z) : str := py (NilZero.string_of_int (Z.to_int n)).

(** [s.startswith(p)]: code points are compared for equality, with no case
    folding. *)
Fixpoint startswith (s p : str) {struct p} : bool :=
  match p, s with
  | [], _ => true
  | _ :: _, [] => false
  | a :: p', b :: s' => N.eqb a b && startswith s' p'
  end.

(** The scan of [s.replace(old, new)] for a non-empty [old]: [skip] counts
    the code points of the occurrence just matched that are still to be
    passed over, so occurrences are taken left to right and never overlap. *)
Fixpoint replace_scan (old new : str) (skip : nat) (s : str) : str :=
  match s with
  | [] => []
  | c :: s' =>
      match skip with
      | S k => replace_scan old new k s'
      | O =>
          if startswith s old
          then new ++ replace_scan old new (length old - 1) s'
          else c :: replace_scan old new 0 s'
      end
  end.

(** [s.replace(old, new)].  For an empty [old] Python puts [new] before
    every code point and at the end. *)
Definition replace (s old new : str) : str :=
  match old with
  | [] => new ++ flat_map (fun c => c :: new) s
  | _ :: _ => replace_scan old new 0 s
  end.

(** [c.isspace()]: the code points CPython's [str.strip()] removes. *)
Definition isspace (c : N) : bool :=
  ((9 <=? c) && (c <=? 13) || (28 <=? c) && (c <=? 32)
   || (c =? 133) || (c =? 160) || (c =? 5760)
   || (8192 <=? c) && (c <=? 8202)
   || (c =? 8232) || (c =? 8233) || (c =? 8239) || (c =? 8287)
   || (c =? 12288))%N.

Fixpoint lstrip (s : str) : str :=
  match s with
  | [] => []
  | c :: s' => if isspace c then lstrip s' else s
  end.

Definition rstrip (s : str) : str := rev (lstrip (rev s)).

(** [s.strip()] *)
Definition strip (s : str) : str := rstrip (lstrip s).

(** [s[:k]]: a negative [k] counts from the end, and the bound is clamped
    to the string. *)
Definition slice_to (s : str) (k : Z) : str :=
  if (k <? 0)%Z then firstn (Z.to_nat (len s + k)) s
  else firstn (Z.to_nat k) s.

End PyStr.

Import PyStr.

(** ** The text transformer of [post_to_twitter] *)

Definition MAX_TWEET_LENGTH : Z := 280.

(** The one-character string ["…"] (U+2026). *)
Definition ellipsis : N := 8230%N.

(** The line feed of ["\n"]. *)
Definition newline : N := 10%N.

Section Transformer.

(** [TELEGRAM_CHANNEL_USERNAME], read from the environment at start-up.  An
    unset variable is rendered by the f-strings as the text [None], which is
    again a string. *)
Variable TELEGRAM_CHANNEL_USERNAME : str.

Definition telegram_post_link (post_id : Z) : str :=
  py "https://t.me/" ++ TELEGRAM_CHANNEL_USERNAME ++ py "/" ++ str_of_int post_id.

Definition link_length (post_id : Z) : Z := len (telegram_post_link post_id) + 5.

Definition allowed_text_length (post_id : Z) : Z :=
  (MAX_TWEET_LENGTH - link_length post_id)%Z.

(** The mention token [f"@{TELEGRAM_CHANNEL_USERNAME}"]. *)
Definition mention : str := py "@" ++ TELEGRAM_CHANNEL_USERNAME.

(** [clean_text] as first assigned (line 79). *)
Definition clean_text (text : str) : str := strip (replace text mention []).

(** [clean_text] after the length test (lines 82-83): the body of the tweet. *)
Definition tweet_body (text : str) (post_id : Z) : str :=
  let clean := clean_text text in
  if (len clean >? allowed_text_length post_id)%Z
  then slice_to clean (allowed_text_length post_id - 1) ++ [ellipsis]
  else clean.

(** [tweet_text] (line 86), the argument of [twitter_api.create_tweet]. *)
Definition tweet_text (text : str) (post_id : Z) : str :=
  tweet_body text post_id ++ [newline; newline] ++ telegram_post_link post_id.

End Transformer.

(** ** Effects: the log, the Twitter client and exceptions *)

Inductive level : Type := INFO | WARNING | ERROR.

(** What the program does to the outside world, in the order it happens. *)
Inductive event : Type :=
| logged (lvl : level) (msg : str)     (* logger.info / warning / error *)
| create_tweet_called (text : str).    (* twitter_api.create_tweet(text=...) *)

Inductive result (E A : Type) : Type :=
| Returned (a : A)
| Raised (e : E).
Arguments Returned {E A} a.
Arguments Raised {E A} e.

(** A computation reads the trace so far and extends it. *)
Definition M (E A : Type) : Type := list event -> result E A * list event.

Definition ret {E A} (a : A) : M E A := fun tr => (Returned a, tr).

Definition bind {E A B} (m : M E A) (k : A -> M E B) : M E B :=
  fun tr =>
    match m tr with
    | (Returned a, tr') => k a tr'
    | (Raised e, tr') => (Raised e, tr')
    end.

Definition raise {E A} (e : E) : M E A := fun tr => (Raised e, tr).

Definition emit {E} (ev : event) : M E unit := fun tr => (Returned tt, tr ++ [ev]).

Notation "x <- m ;; k" := (bind m (fun x => k))
  (at level 61, m at next level, right associativity).
Notation "m ;; k" := (bind m (fun _ => k))
  (at level 61, right associativity).

(** ** The inbound event *)

(** [update.channel_post]: the text may be absent (a media-only post). *)
Record Message : Type := { text : option str; message_id : Z }.

Record Update : Type := { channel_post : option Message }.

Section Bot.

Variable TELEGRAM_CHANNEL_USERNAME : str.

(** Raised Python objects.  [isinstance_Exception e] is
    [isinstance(e, Exception)]: it is false for [KeyboardInterrupt],
    [SystemExit] and the like, which [except Exception] lets through. *)
Variable exn : Type.
Variable isinstance_Exception : exn -> bool.

(** [f"{e}"] and [f"{update}"]. *)
Variable str_of_exn : exn -> str.
Variable str_of_update : Update -> str.

(** The Twitter client: given what happened so far and the text, the call
    returns ([None]) or raises. *)
Variable twitter_api : list event -> str -> option exn.

Definition logger_info (msg : str) : M exn unit := emit (logged INFO msg).
Definition logger_warning (msg : str) : M exn unit := emit (logged WARNING msg).
Definition logger_error (msg : str) : M exn unit := emit (logged ERROR msg).

Definition create_tweet (text : str) : M exn unit :=
  fun tr =>
    let tr' := tr ++ [create_tweet_called text] in
    match twitter_api tr text with
    | None => (Returned tt, tr')
    | Some e => (Raised e, tr')
    end.

(** [try: body  except Exception as e: handler e] *)
Definition try_except {A} (body : M exn A) (handler : exn -> M exn A) : M exn A :=
  fun tr =>
    match body tr with
    | (Returned a, tr') => (Returned a, tr')
    | (Raised e, tr') =>
        if isinstance_Exception e then handler e tr' else (Raised e, tr')
    end.

Definition post_to_twitter (text : str) (post_id : Z) : M exn unit :=
  try_except
    (let tweet := tweet_text TELEGRAM_CHANNEL_USERNAME text post_id in
     create_tweet tweet ;;
     logger_info (py "Posted to Twitter: " ++ tweet))
    (fun e =>
       logger_error (py "Error posting to Twitter: " ++ str_of_exn e) ;;
       raise e).

(** The test [not update.channel_post or not update.channel_post.text] is
    the nested match: a missing payload, a missing text and the empty text
    are falsy, and the text is read only when the payload is there. *)
Definition handle_new_message (update : Update) : M exn unit :=
  try_except
    (let skip :=
       logger_warning
         (py "Received an update with no text in channel_post. " ++ str_of_update update) in
     match channel_post update with
     | None => skip
     | Some post =>
         match text post with
         | None => skip
         | Some [] => skip
         | Some message =>
             logger_info (py "Received message from channel: " ++ message) ;;
             post_to_twitter message (message_id post)
         end
     end)
    (fun e => logger_error (py "Error in handle_new_message: " ++ str_of_exn e)).

End Bot.

Arguments logger_info {exn} msg.
Arguments logger_warning {exn} msg.
Arguments logger_error {exn} msg.

(** ** The retry wrapper *)

(** The loop that tenacity's [@retry] puts around a function.  After each
    call the [retry] predicate looks at the outcome: when it is false the
    outcome is handed to the caller (a result is returned, an exception is
    raised again); when it is true and [stop] holds for the attempt number,
    [RetryError] is raised; otherwise the loop waits and calls again.  The
    waiting times do not change how often the function is called nor what
    is returned, and are left out. *)
Section Tenacity.

Variables exn A : Type.

Inductive retry_exn : Type :=
| reraised (e : exn)                     (* the function's own exception *)
| RetryError (last_attempt : result exn A).

(** The wrapped function: [fn k] is the outcome of its call number [k],
    calls being counted from 0 over the life of the process. *)
Variable fn : nat -> result exn A.

Variable stop : nat -> bool.
Variable retry : result exn A -> bool.

(** The state is the number of calls made so far; attempts are numbered
    from 1.  [None] means the fuel ran out before the loop ended. *)
Fixpoint retrying (fuel attempt_number calls : nat)
  : option (result retry_exn A * nat) :=
  match fuel with
  | O => None
  | S fuel' =>
      let outcome := fn calls in
      if retry outcome then
        if stop attempt_number
        then Some (Raised (RetryError outcome), S calls)
        else retrying fuel' (S attempt_number) (S calls)
      else
        Some (match outcome with
              | Returned a => Returned a
              | Raised e => Raised (reraised e)
              end, S calls)
  end.

End Tenacity.

Arguments reraised {exn A} e.
Arguments RetryError {exn A} last_attempt.

(** [stop_after_attempt(n)] *)
Definition stop_after_attempt (n attempt_number : nat) : bool :=
  n <=? attempt_number.

(** [retry_if_exception_type(cls)]: retry when the call raised an instance
    of [cls]; [isinstance_cls e] is [isinstance(e, cls)]. *)
Definition retry_if_exception_type {exn A} (isinstance_cls : exn -> bool)
    (outcome : result exn A) : bool :=
  match outcome with
  | Returned _ => false
  | Raised e => isinstance_cls e
  end.

Section Fetch.

Variables exn updates : Type.

(** [isinstance(e, NetworkError)] *)
Variable isinstance_NetworkError : exn -> bool.

(** [bot.get_updates]: the outcome of each of its calls. *)
Variable get_updates : nat -> result exn updates.

Definition get_updates_with_retry (fuel calls : nat)
  : option (result (retry_exn exn updates) updates * nat) :=
  retrying get_updates (stop_after_attempt 5)
    (retry_if_exception_type isinstance_NetworkError) fuel 1 calls.

End Fetch.

(** ** The supervising loop of [main] *)

(** What [main] itself does to the outside world. *)
Inductive main_event : Type :=
| health_thread_started                 (* health_thread.start() *)
| main_logged (lvl : level) (msg : str)
| slept (seconds : Z)                   (* time.sleep *)
| stop_running_called                   (* application.stop_running() *)
| stop_called.                          (* application.stop() *)

(** One pass through the [try] body (lines 132-151): the library calls
    that build the application, register the handlers and run the polling
    either come back or raise; in the second case
    [application_assigned] tells whether line 133 had assigned
    [application] by then. *)
Inductive body_outcome (exn : Type) : Type :=
| body_returned
| body_raised (e : exn) (application_assigned : bool).
Arguments body_returned {exn}.
Arguments body_raised {exn} e application_assigned.

Inductive main_result (exn : Type) : Type :=
| still_looping            (* the fuel ran out inside [while True] *)
| exited (code : Z)        (* sys.exit(code) *)
| propagated (e : exn).    (* an exception leaves [main] *)
Arguments still_looping {exn}.
Arguments exited {exn} code.
Arguments propagated {exn} e.

Section Main.

Variable exn : Type.

(** [isinstance(e, Exception)] and [isinstance(e, KeyboardInterrupt)] *)
Variable isinstance_Exception : exn -> bool.
Variable isinstance_KeyboardInterrupt : exn -> bool.

(** [f"{e}"] and [traceback.format_exc()] while [e] is being handled. *)
Variable str_of_exn : exn -> str.
Variable format_exc : exn -> str.

(** What reading the local [application] raises before its assignment. *)
Variable UnboundLocalError : exn.

(** The outcome of the [try] body on each pass, passes counted from 0, and
    of [application.stop_running()] if it is called on that pass. *)
Variable try_body : nat -> body_outcome exn.
Variable stop_running : nat -> option exn.

(** The clause [except Exception as e] (lines 154-157). *)
Definition critical_error (e : exn) : list main_event :=
  [main_logged ERROR (py "Critical error: " ++ str_of_exn e);
   main_logged ERROR (format_exc e);
   slept 5].

(** [while True] from pass [pass] on; [bound] tells whether [application]
    has been assigned on an earlier pass.  The clauses are tried in the
    order of the source: [except Exception], then
    [except KeyboardInterrupt]; any other exception leaves [main].
    Exceptions come from the [try] body and from [stop_running] only: an
    interrupt that arrives while a handler logs or sleeps is not part of
    this model. *)
Fixpoint main_loop (fuel pass : nat) (bound : bool) (tr : list main_event)
  : main_result exn * list main_event :=
  match fuel with
  | O => (still_looping, tr)
  | S fuel' =>
      match try_body pass with
      | body_returned => main_loop fuel' (S pass) true tr
      | body_raised e assigned =>
          if isinstance_Exception e then
            main_loop fuel' (S pass) (bound || assigned) (tr ++ critical_error e)
          else if isinstance_KeyboardInterrupt e then
            if bound || assigned then
              match stop_running pass with
              | Some e' => (propagated e', tr ++ [stop_running_called])
              | None =>
                  (exited 1,
                   tr ++ [stop_running_called; stop_called;
                          main_logged INFO (py "Bot stopped by user.")])
              end
            else (propagated UnboundLocalError, tr)
          else (propagated e, tr)
      end
  end.

Definition main (fuel : nat) : main_result exn * list main_event :=
  main_loop fuel 0 false [health_thread_started].

End Main.

(** ** Which functions of the file can run *)

Module CallGraph.

(** The functions and methods that [tg2twi.py] defines, and the module body. *)
Inductive func : Type :=
| module_body
| start_health_check
| do_GET
| log_message
| post_to_twitter
| handle_new_message
| error_handler
| get_updates_with_retry
| main
| polling_loop.

(** [hands_control f]: the functions of the file that the body of [f] calls
    or hands to a library that may call them (a thread target, a request
    handler class, a registered handler).  A [def] inside a body only binds
    a name: [main] defines [polling_loop] (line 140) and then neither calls
    it nor passes it on. *)
Definition hands_control (f : func) : list func :=
  match f with
  | module_body => [main]                                  (* line 166 *)
  | start_health_check => [do_GET; log_message]            (* line 63 *)
  | do_GET => []
  | log_message => []
  | post_to_twitter => []
  | handle_new_message => [post_to_twitter]                (* line 106 *)
  | error_handler => []
  | get_updates_with_retry => []
  | main => [start_health_check;                           (* line 126 *)
             handle_new_message;                           (* line 135 *)
             error_handler]                                (* line 137 *)
  | polling_loop => [get_updates_with_retry]               (* line 143 *)
  end.

(** A function runs only if the interpreter starts it (the module body) or
    a function that runs hands control to it. *)
Inductive runs : func -> Prop :=
| runs_module_body : runs module_body
| runs_step f g : runs f -> In g (hands_control f) -> runs g.

End CallGraph.

(** ** What the specification says of the cleaning step *)

Module Spec.

(** [tok] occurs in [s] as a literal run of code points. *)
Definition occurs (tok s : str) : Prop := exists a b, s = a ++ tok ++ b.

(** [removed tok s r]: [r] is [s] with the occurrences of [tok] taken out,
    each one the first occurrence in what is left of [s] after the one
    before it. *)
Inductive removed (tok : str) : str -> str -> Prop :=
| removed_none s :
    ~ occurs tok s -> removed tok s s
| removed_first a b r :
    ~ occurs tok (a ++ removelast tok) ->
    removed tok b r ->
    removed tok (a ++ tok ++ b) (a ++ r).

(** [trimmed s t]: [t] is [s] without its leading and trailing whitespace. *)
Definition trimmed (s t : str) : Prop :=
  exists l r,
    s = l ++ t ++ r
    /\ forallb isspace l = true
    /\ forallb isspace r = true
    /\ (forall c t', t = c :: t' -> isspace c = false)
    /\ (forall t' c, t = t' ++ [c] -> isspace c = false).

End Spec.

(** * Properties *)

(** ** Strings *)

Lemma len_app (s t : str) : len (s ++ t) = (len s + len t)%Z.
Proof. unfold len. rewrite length_app. lia. Qed.

Lemma len_nonneg (s : str) : (0 <= len s)%Z.
Proof. unfold len. lia. Qed.

Lemma len_slice_to (s : str) (k : Z) :
  len (slice_to s k)
  = (if k <? 0 then Z.max 0 (len s + k) else Z.min k (len s))%Z.
Proof.
  unfold slice_to, len.
  destruct (k <? 0)%Z eqn:Hk; rewrite length_firstn.
  - apply Z.ltb_lt in Hk. lia.
  - apply Z.ltb_ge in Hk. lia.
Qed.

Lemma startswith_app (p r : str) : startswith (p ++ r) p = true.
Proof.
  induction p as [|a p IH]; simpl; [reflexivity|].
  now rewrite N.eqb_refl.
Qed.

Lemma startswith_inv (s p : str) :
  startswith s p = true -> exists r, s = p ++ r.
Proof.
  revert s. induction p as [|a p IH]; intros s H.
  - now exists s.
  - destruct s as [|b s]; simpl in H; [discriminate|].
    apply andb_prop in H. destruct H as [Hab Hs].
    apply N.eqb_eq in Hab. subst b.
    destruct (IH _ Hs) as [r ->]. now exists r.
Qed.

Lemma replace_scan_skip (old new : str) (k : nat) (s : str) :
  replace_scan old new k s = replace_scan old new 0 (skipn k s).
Proof.
  revert k. induction s as [|c s IH]; intros [|k]; try reflexivity.
  simpl skipn. rewrite <- IH. reflexivity.
Qed.

(** At an occurrence of [old] the scan emits [new] and goes on after it. *)
Lemma replace_scan_match (old new r : str) :
  old <> [] ->
  replace_scan old new 0 (old ++ r) = new ++ replace_scan old new 0 r.
Proof.
  intros Hne. destruct old as [|o old]; [congruence|].
  change ((o :: old) ++ r) with (o :: (old ++ r)).
  cbn [replace_scan].
  change (o :: old ++ r) with ((o :: old) ++ r).
  rewrite startswith_app. f_equal.
  rewrite replace_scan_skip. f_equal.
  cbn [length]. rewrite Nat.sub_succ, Nat.sub_0_r.
  rewrite skipn_app, skipn_all, Nat.sub_diag. reflexivity.
Qed.

(** Elsewhere it copies one code point. *)
Lemma replace_scan_copy (old new : str) (c : N) (s : str) :
  startswith (c :: s) old = false ->
  replace_scan old new 0 (c :: s) = c :: replace_scan old new 0 s.
Proof. intros H. cbn [replace_scan]. now rewrite H. Qed.

Lemma occurs_length (tok s : str) :
  Spec.occurs tok s -> length tok <= length s.
Proof. intros (a & b & ->). rewrite !length_app. lia. Qed.

Lemma occurs_cons (tok : str) (c : N) (s : str) :
  Spec.occurs tok (c :: s) ->
  startswith (c :: s) tok = true \/ Spec.occurs tok s.
Proof.
  intros (a & b & H). destruct a as [|c' a].
  - left. rewrite H. apply (startswith_app tok b).
  - right. injection H as _ ->. now exists a, b.
Qed.

Lemma removelast_shorter (tok : str) :
  tok <> [] -> ~ Spec.occurs tok (removelast tok).
Proof.
  intros Hne Hocc. apply occurs_length in Hocc.
  rewrite (app_removelast_last 0%N Hne) in Hocc at 1.
  rewrite length_app in Hocc. simpl in Hocc. lia.
Qed.

(** A code point that does not start an occurrence is kept by the
    specification's removal too. *)
Lemma removed_cons (tok : str) (c : N) (s r : str) :
  tok <> [] ->
  startswith (c :: s) tok = false ->
  Spec.removed tok s r ->
  Spec.removed tok (c :: s) (c :: r).
Proof.
  intros Hne Hstart Hrem. inversion Hrem as [s0 Hno | a b r0 Hno Hrest]; subst.
  - apply Spec.removed_none. intros Hocc.
    apply occurs_cons in Hocc. destruct Hocc as [Hocc|Hocc]; [congruence|tauto].
  - change (Spec.removed tok ((c :: a) ++ tok ++ b) ((c :: a) ++ r0)).
    apply Spec.removed_first; [|exact Hrest]. intros Hocc.
    apply occurs_cons in Hocc. destruct Hocc as [Hocc|Hocc]; [|tauto].
    apply startswith_inv in Hocc. destruct Hocc as [q Hq].
    assert (Hpre : c :: a ++ tok ++ b = tok ++ q ++ [last tok 0%N] ++ b).
    { pose proof (app_removelast_last 0%N Hne) as Hl.
      transitivity (((c :: a) ++ removelast tok) ++ [last tok 0%N] ++ b).
      - rewrite <- app_assoc. simpl. do 2 f_equal.
        change (removelast tok ++ last tok 0%N :: b)
          with (removelast tok ++ [last tok 0%N] ++ b).
        rewrite app_assoc, <- Hl. reflexivity.
      - change ((c :: a) ++ removelast tok = tok ++ q) in Hq.
        rewrite Hq, <- app_assoc. reflexivity. }
    rewrite Hpre, startswith_app in Hstart.
    congruence.
Qed.

(** The scan of [str.replace] deletes what the specification's removal
    deletes. *)
Lemma replace_scan_removed (tok : str) :
  tok <> [] ->
  forall s, Spec.removed tok s (replace_scan tok [] 0 s).
Proof.
  intros Hne s.
  remember (length s) as n eqn:Hn.
  revert s Hn. induction n as [n IH] using lt_wf_ind. intros s Hn.
  destruct s as [|c s].
  - apply Spec.removed_none. intros Hocc. apply occurs_length in Hocc.
    destruct tok; [congruence|simpl in Hocc; lia].
  - destruct (startswith (c :: s) tok) eqn:Hstart.
    + apply startswith_inv in Hstart. destruct Hstart as [r Hr].
      rewrite Hr, replace_scan_match by exact Hne.
      change (Spec.removed tok ([] ++ tok ++ r) ([] ++ replace_scan tok [] 0 r)).
      apply Spec.removed_first.
      * apply removelast_shorter, Hne.
      * apply (IH (length r)); [|reflexivity].
        rewrite Hn, Hr, length_app. destruct tok; [congruence|simpl; lia].
    + rewrite replace_scan_copy by exact Hstart.
      apply removed_cons; [exact Hne|exact Hstart|].
      apply (IH (length s)); [|reflexivity]. subst n. simpl. lia.
Qed.

Lemma app_same_length (a a' x x' : str) :
  a ++ x = a' ++ x' -> length a = length a' -> a = a' /\ x = x'.
Proof.
  revert a'. induction a as [|c a IH]; intros [|c' a'] Heq Hlen;
    try discriminate.
  - now split.
  - injection Heq as -> Heq. injection Hlen as Hlen.
    destruct (IH _ Heq Hlen) as [-> ->]. now split.
Qed.

(** If [tok] occurs at two places of a string, the later place is not a
    first occurrence. *)
Lemma first_occurrence_later (tok a b a' b' : str) :
  a ++ tok ++ b = a' ++ tok ++ b' ->
  length a < length a' ->
  Spec.occurs tok (a' ++ removelast tok).
Proof.
  intros Heq Hlt.
  destruct tok as [|t tok']; [now exists a', []|].
  remember (t :: tok') as tok eqn:Htok.
  assert (Hne : tok <> []) by (subst tok; discriminate).
  clear Htok.
  set (n := length a + length tok).
  set (p := a' ++ removelast tok).
  assert (Hs : a ++ tok ++ b = p ++ [last tok 0%N] ++ b').
  { rewrite Heq. unfold p. rewrite <- app_assoc. f_equal.
    rewrite app_assoc, <- app_removelast_last by exact Hne. reflexivity. }
  assert (Hlen : n <= length p).
  { unfold n, p. rewrite length_app.
    pose proof (f_equal (@length N) (app_removelast_last 0%N Hne)) as Hl.
    rewrite length_app in Hl. simpl in Hl. lia. }
  assert (Hpre : firstn n p = a ++ tok).
  { transitivity (firstn n (p ++ [last tok 0%N] ++ b')).
    - rewrite firstn_app. replace (n - length p) with 0 by lia.
      simpl. now rewrite app_nil_r.
    - rewrite <- Hs, app_assoc, firstn_app.
      replace n with (length (a ++ tok)) by (rewrite length_app; reflexivity).
      rewrite firstn_all, Nat.sub_diag. simpl. now rewrite app_nil_r. }
  exists a, (skipn n p).
  rewrite app_assoc, <- Hpre. symmetry. apply firstn_skipn.
Qed.

(** The specification's removal determines its result. *)
Lemma removed_functional (tok s r1 r2 : str) :
  Spec.removed tok s r1 -> Spec.removed tok s r2 -> r1 = r2.
Proof.
  intros H1. revert r2.
  induction H1 as [s Hno | a b r Hfirst Hrest IH]; intros r2 H2.
  - inversion H2 as [s0 _ | a' b' r' _ _]; subst; [reflexivity|].
    exfalso. apply Hno. now exists a', b'.
  - inversion H2 as [s0 Hno Hs | a' b' r' Hfirst' Hrest' Hs]; subst.
    + exfalso. apply Hno. now exists a, b.
    + assert (Hlen : length a' = length a).
      { destruct (Nat.lt_trichotomy (length a') (length a)) as [Hlt|[Heq|Hgt]].
        - exfalso. apply Hfirst.
          apply (@first_occurrence_later tok a' b' a b Hs Hlt).
        - exact Heq.
        - exfalso. apply Hfirst'. symmetry in Hs.
          apply (@first_occurrence_later tok a b a' b' Hs Hgt). }
      destruct (app_same_length _ _ _ _ Hs Hlen) as [-> Htail].
      apply app_inv_head in Htail. subst b'.
      f_equal. apply IH. exact Hrest'.
Qed.

Lemma lstrip_split (s : str) :
  exists l, s = l ++ lstrip s /\ forallb isspace l = true.
Proof.
  induction s as [|c s (l & Hs & Hl)]; simpl.
  - now exists [].
  - destruct (isspace c) eqn:Hc.
    + exists (c :: l). simpl. rewrite Hc, Hl, <- Hs. auto.
    + now exists [].
Qed.

Lemma lstrip_head (s : str) (c : N) (t : str) :
  lstrip s = c :: t -> isspace c = false.
Proof.
  induction s as [|d s IH]; simpl; [discriminate|].
  destruct (isspace d) eqn:Hd; [exact IH|].
  intros H. injection H as -> _. exact Hd.
Qed.

(** [str.strip] trims as the specification says. *)
Lemma strip_trimmed (s : str) : Spec.trimmed s (strip s).
Proof.
  unfold strip, rstrip.
  destruct (lstrip_split s) as (l & Hs & Hl).
  destruct (lstrip_split (rev (lstrip s))) as (r & Hm & Hr).
  set (m := lstrip s) in *. set (t' := lstrip (rev m)) in *.
  assert (Hmid : m = rev t' ++ rev r).
  { rewrite <- rev_app_distr, <- Hm, rev_involutive. reflexivity. }
  exists l, (rev r). repeat split.
  - rewrite <- Hmid. exact Hs.
  - exact Hl.
  - rewrite forallb_forall in *. intros x Hx. apply Hr. now apply in_rev.
  - intros c u Hu. rewrite Hu in Hmid. simpl in Hmid.
    apply (lstrip_head s Hmid).
  - intros u c Hu.
    assert (Ht : t' = c :: rev u).
    { rewrite <- (rev_involutive t'), Hu, rev_app_distr. reflexivity. }
    apply (lstrip_head (rev m) Ht).
Qed.

(** ** The text transformer *)

Section TransformerFacts.

Variable channel : str.

Lemma tweet_text_split (text : str) (post_id : Z) :
  tweet_text channel text post_id
  = tweet_body channel text post_id ++ [newline; newline]
      ++ telegram_post_link channel post_id.
Proof. reflexivity. Qed.

Lemma len_tweet_text (text : str) (post_id : Z) :
  len (tweet_text channel text post_id)
  = (len (tweet_body channel text post_id) + 2
     + len (telegram_post_link channel post_id))%Z.
Proof.
  unfold tweet_text. rewrite !len_app.
  change (len [newline; newline]) with 2%Z. lia.
Qed.

(** The length of the body in every case, the ones with no room left
    included: when the text is cut, Python's slice with a negative bound
    counts from the end of the string. *)
Lemma len_tweet_body (text : str) (post_id : Z) :
  let n := len (clean_text channel text) in
  let allowed := allowed_text_length channel post_id in
  len (tweet_body channel text post_id)
  = (if n >? allowed
     then (if allowed <? 1 then Z.max 0 (n + allowed - 1) else allowed - 1) + 1
     else n)%Z.
Proof.
  intros n allowed. unfold tweet_body. fold n allowed.
  destruct (n >? allowed)%Z eqn:Hcut; [|reflexivity].
  rewrite len_app, len_slice_to. fold n.
  apply Z.gtb_lt in Hcut. change (len [ellipsis]) with 1%Z.
  destruct (allowed - 1 <? 0)%Z eqn:H1, (allowed <? 1)%Z eqn:H2;
    rewrite ?Z.ltb_lt, ?Z.ltb_ge in H1, H2; lia.
Qed.

End TransformerFacts.

(** C1, as amended: when the link leaves room for at least one character
    of body ([allowed_text_length >= 1], that is a link of at most 274 code
    points), the text handed to Twitter has at most 280 code points. *)
Theorem tweet_text_within_limit (channel text : str) (post_id : Z) :
  (1 <= allowed_text_length channel post_id)%Z ->
  (len (tweet_text channel text post_id) <= MAX_TWEET_LENGTH)%Z.
Proof.
  intros Hroom.
  rewrite len_tweet_text, len_tweet_body.
  pose proof (len_nonneg (clean_text channel text)) as Hn.
  unfold allowed_text_length, link_length in *.
  destruct (_ >? _)%Z eqn:Hcut.
  - destruct (_ <? 1)%Z eqn:H1; [apply Z.ltb_lt in H1; lia|lia].
  - rewrite Z.gtb_ltb in Hcut. apply Z.ltb_ge in Hcut. lia.
Qed.

Lemma tweet_text_within_limit_witness :
  (1 <= allowed_text_length (py "mychannel") 42)%Z
  /\ (len (tweet_text (py "mychannel") (repeat 120%N 300) 42)
      <= MAX_TWEET_LENGTH)%Z.
Proof.
  split.
  - vm_compute. discriminate.
  - apply tweet_text_within_limit. vm_compute. discriminate.
Defined.

(** C1, as stated, fails: with a channel name of 300 code points the link
    alone is longer than 280, and the text handed to Twitter has 318. *)
Lemma tweet_text_over_limit :
  ~ (len (tweet_text (repeat 97%N 300) (py "hello") 1) <= MAX_TWEET_LENGTH)%Z.
Proof. vm_compute. intros H. apply H. reflexivity. Qed.

(** C2, as amended: when the link leaves room for at least one character
    of body and the cleaned text is longer than [allowed_text_length], the
    body is the first [allowed_text_length - 1] code points of the cleaned
    text followed by the ellipsis, so it has exactly [allowed_text_length]
    code points and ends with the ellipsis. *)
Theorem truncated_body (channel text : str) (post_id : Z) :
  (1 <= allowed_text_length channel post_id)%Z ->
  (len (clean_text channel text) > allowed_text_length channel post_id)%Z ->
  tweet_body channel text post_id
  = firstn (Z.to_nat (allowed_text_length channel post_id - 1))
      (clean_text channel text) ++ [ellipsis]
  /\ len (tweet_body channel text post_id) = allowed_text_length channel post_id.
Proof.
  intros Hroom Hlong.
  assert (Hbody : tweet_body channel text post_id
                  = firstn (Z.to_nat (allowed_text_length channel post_id - 1))
                      (clean_text channel text) ++ [ellipsis]).
  { unfold tweet_body, slice_to.
    destruct (_ >? _)%Z eqn:Hcut; [|rewrite Z.gtb_ltb in Hcut; apply Z.ltb_ge in Hcut; lia].
    destruct (_ <? 0)%Z eqn:Hneg; [apply Z.ltb_lt in Hneg; lia|reflexivity]. }
  split; [exact Hbody|].
  rewrite Hbody, len_app. unfold len in *. rewrite length_firstn. simpl. lia.
Qed.

Lemma truncated_body_witness :
  (1 <= allowed_text_length (py "mychannel") 42)%Z
  /\ (len (clean_text (py "mychannel") (repeat 120%N 300))
      > allowed_text_length (py "mychannel") 42)%Z
  /\ tweet_body (py "mychannel") (repeat 120%N 300) 42
     = firstn (Z.to_nat (allowed_text_length (py "mychannel") 42 - 1))
         (clean_text (py "mychannel") (repeat 120%N 300)) ++ [ellipsis]
  /\ len (tweet_body (py "mychannel") (repeat 120%N 300) 42)
     = allowed_text_length (py "mychannel") 42.
Proof.
  split; [vm_compute; discriminate|].
  split; [vm_compute; reflexivity|].
  apply truncated_body; vm_compute; [discriminate|reflexivity].
Defined.

(** C2, as stated, fails when [allowed_text_length] is 0 (a link of 275
    code points): the cleaned text ["hello"] is longer than 0, and the body
    is ["hell…"], of length 5 and not 0. *)
Lemma truncated_body_no_room :
  (0 <= allowed_text_length (repeat 97%N 260) 1)%Z
  /\ (len (clean_text (repeat 97%N 260) (py "hello"))
      > allowed_text_length (repeat 97%N 260) 1)%Z
  /\ tweet_body (repeat 97%N 260) (py "hello") 1 = py "hell" ++ [ellipsis]
  /\ len (tweet_body (repeat 97%N 260) (py "hello") 1)
     <> allowed_text_length (repeat 97%N 260) 1.
Proof.
  split; [vm_compute; discriminate|].
  split; [vm_compute; reflexivity|].
  split; [vm_compute; reflexivity|].
  vm_compute. discriminate.
Qed.

(** C7: when the cleaned text is no longer than [allowed_text_length], the
    body is the cleaned text itself, with nothing cut and no ellipsis
    added, and the tweet is that text, two line feeds and the link. *)
Theorem short_body_verbatim (channel text : str) (post_id : Z) :
  (len (clean_text channel text) <= allowed_text_length channel post_id)%Z ->
  tweet_body channel text post_id = clean_text channel text
  /\ tweet_text channel text post_id
     = clean_text channel text ++ [newline; newline]
         ++ telegram_post_link channel post_id.
Proof.
  intros Hshort.
  assert (Hbody : tweet_body channel text post_id = clean_text channel text).
  { unfold tweet_body.
    destruct (_ >? _)%Z eqn:Hcut; [apply Z.gtb_lt in Hcut; lia|reflexivity]. }
  split; [exact Hbody|].
  unfold tweet_text. now rewrite Hbody.
Qed.

Lemma short_body_verbatim_witness :
  (len (clean_text (py "mychannel") (py "Hello @mychannel world"))
   <= allowed_text_length (py "mychannel") 42)%Z
  /\ tweet_body (py "mychannel") (py "Hello @mychannel world") 42
     = clean_text (py "mychannel") (py "Hello @mychannel world")
  /\ tweet_text (py "mychannel") (py "Hello @mychannel world") 42
     = clean_text (py "mychannel") (py "Hello @mychannel world")
         ++ [newline; newline] ++ telegram_post_link (py "mychannel") 42.
Proof.
  split; [vm_compute; discriminate|].
  apply short_body_verbatim. vm_compute. discriminate.
Defined.

Lemma mention_nonempty (channel : str) : mention channel <> [].
Proof. discriminate. Qed.

Lemma replace_mention (channel text : str) :
  replace text (mention channel) [] = replace_scan (mention channel) [] 0 text.
Proof. reflexivity. Qed.

(** A mention at the very start of the text is deleted whatever follows it. *)
Lemma replace_leading_mention (channel rest : str) :
  replace (mention channel ++ rest) (mention channel) []
  = replace rest (mention channel) [].
Proof.
  rewrite !replace_mention.
  rewrite replace_scan_match by apply mention_nonempty. reflexivity.
Qed.

(** C6: the cleaned text is the raw text with the occurrences of the
    mention token ['@' + channel_name] removed (code points are compared
    for equality, so the match is case-sensitive) and then trimmed of
    leading and trailing whitespace; the length that is compared with
    [allowed_text_length], and the text that is cut, are those of this
    cleaned text. *)
Theorem clean_text_refines (channel text : str) :
  exists without_mentions,
    Spec.removed (py "@" ++ channel) text without_mentions
    /\ Spec.trimmed without_mentions (clean_text channel text)
    /\ forall post_id,
         tweet_body channel text post_id
         = if (len (clean_text channel text)
               >? allowed_text_length channel post_id)%Z
           then slice_to (clean_text channel text)
                  (allowed_text_length channel post_id - 1) ++ [ellipsis]
           else clean_text channel text.
Proof.
  exists (replace text (mention channel) []). split; [|split].
  - rewrite replace_mention.
    apply replace_scan_removed, mention_nonempty.
  - apply strip_trimmed.
  - reflexivity.
Qed.

Example mention_is_case_sensitive :
  clean_text (py "mychannel") (py "  Hello @MyChannel and @mychannel ")
  = py "Hello @MyChannel and".
Proof. vm_compute. reflexivity. Qed.

(** C8: for ["Hello @mychannel world"], channel ["mychannel"], post 42 and
    the limit 280, the cleaned text is ["Hello  world"], with the two
    spaces the removed mention leaves, and the tweet is that text, two line
    feeds and ["https://t.me/mychannel/42"]. *)
Theorem scenario_hello :
  MAX_TWEET_LENGTH = 280%Z
  /\ clean_text (py "mychannel") (py "Hello @mychannel world")
     = py "Hello  world"
  /\ tweet_text (py "mychannel") (py "Hello @mychannel world") 42
     = py "Hello  world" ++ [newline; newline]
         ++ py "https://t.me/mychannel/42".
Proof. repeat split. Qed.

(** C10: the mention is removed as a run of characters, not as a token:
    in ["@mychannelextra"] the mention of ["mychannel"] is a proper prefix
    of a longer handle, and the body that is left is ["extra"]. *)
Theorem mention_inside_longer_handle :
  py "@mychannelextra" = mention (py "mychannel") ++ py "extra"
  /\ clean_text (py "mychannel") (py "@mychannelextra") = py "extra"
  /\ tweet_body (py "mychannel") (py "@mychannelextra") 42 = py "extra"
  /\ tweet_text (py "mychannel") (py "@mychannelextra") 42
     = py "extra" ++ [newline; newline] ++ py "https://t.me/mychannel/42".
Proof. repeat split. Qed.

Example str_of_int_examples :
  str_of_int 0 = py "0" /\ str_of_int (-17) = py "-17" /\ str_of_int 42 = py "42".
Proof. repeat split. Qed.

(** ** The publisher and the dispatcher *)

Section DispatcherFacts.

Variable channel : str.
Variable exn : Type.
Variable isinstance_Exception : exn -> bool.
Variable str_of_exn : exn -> str.
Variable str_of_update : Update -> str.
Variable twitter_api : list event -> str -> option exn.

Let publish := post_to_twitter channel isinstance_Exception str_of_exn twitter_api.
Let dispatch :=
  handle_new_message channel isinstance_Exception str_of_exn str_of_update twitter_api.

(** Every call of [post_to_twitter] calls the Twitter client once, first of
    all, with the text the transformer built. *)
Lemma post_to_twitter_calls_api (text : str) (post_id : Z) (tr : list event) :
  exists logs,
    snd (publish text post_id tr)
    = tr ++ create_tweet_called (tweet_text channel text post_id) :: logs
    /\ forall t, ~ In (create_tweet_called t) logs.
Proof.
  unfold publish, post_to_twitter, try_except, bind, create_tweet, logger_info,
    logger_error, raise, emit.
  destruct (twitter_api tr _) as [e|].
  - destruct (isinstance_Exception e).
    + eexists. simpl. rewrite <- app_assoc. split; [reflexivity|].
      intros t [H|[]]. discriminate.
    + exists []. simpl. split; [reflexivity|]. intros t [].
  - eexists. simpl. rewrite <- app_assoc. split; [reflexivity|].
    intros t [H|[]]. discriminate.
Qed.

(** What [post_to_twitter] does when the client raises an [Exception]: it
    logs the error and raises the same exception again. *)
Lemma post_to_twitter_reraises (text : str) (post_id : Z) (tr : list event) (e : exn) :
  twitter_api tr (tweet_text channel text post_id) = Some e ->
  isinstance_Exception e = true ->
  publish text post_id tr
  = (Raised e,
     tr ++ [create_tweet_called (tweet_text channel text post_id);
            logged ERROR (py "Error posting to Twitter: " ++ str_of_exn e)]).
Proof.
  intros Hapi Hexc.
  unfold publish, post_to_twitter, try_except, bind, create_tweet, logger_error,
    raise, emit.
  rewrite Hapi, Hexc, <- app_assoc. reflexivity.
Qed.

(** And when the client returns: it logs the tweet and returns. *)
Lemma post_to_twitter_returns (text : str) (post_id : Z) (tr : list event) :
  twitter_api tr (tweet_text channel text post_id) = None ->
  publish text post_id tr
  = (Returned tt,
     tr ++ [create_tweet_called (tweet_text channel text post_id);
            logged INFO (py "Posted to Twitter: "
                         ++ tweet_text channel text post_id)]).
Proof.
  intros Hapi.
  unfold publish, post_to_twitter, try_except, bind, create_tweet, logger_info,
    emit.
  rewrite Hapi, <- app_assoc. reflexivity.
Qed.

(** The dispatcher on an update that carries a text. *)
Lemma handle_new_message_text (update : Update) (post : Message)
    (message : str) (tr : list event) :
  channel_post update = Some post ->
  text post = Some message ->
  message <> [] ->
  dispatch update tr
  = try_except isinstance_Exception
      (logger_info (py "Received message from channel: " ++ message) ;;
       publish message (message_id post))
      (fun e => logger_error (py "Error in handle_new_message: " ++ str_of_exn e))
      tr.
Proof.
  intros Hpost Htext Hne.
  unfold dispatch, handle_new_message. rewrite Hpost, Htext.
  destruct message; [congruence|reflexivity].
Qed.

(** C5, as amended: whatever the update, when the exceptions the publish
    call raises are instances of [Exception], [handle_new_message] returns
    normally; and when the publish call does raise, the exception is logged
    at error level by the publisher and again by the dispatcher, which
    catches it. *)
Theorem handle_new_message_never_raises (update : Update) (tr : list event) :
  (forall tr' t e, twitter_api tr' t = Some e -> isinstance_Exception e = true) ->
  fst (dispatch update tr) = Returned tt
  /\ forall post message e,
       channel_post update = Some post ->
       text post = Some message ->
       message <> [] ->
       twitter_api (tr ++ [logged INFO (py "Received message from channel: " ++ message)])
         (tweet_text channel message (message_id post)) = Some e ->
       snd (dispatch update tr)
       = tr ++ [logged INFO (py "Received message from channel: " ++ message);
                create_tweet_called (tweet_text channel message (message_id post));
                logged ERROR (py "Error posting to Twitter: " ++ str_of_exn e);
                logged ERROR (py "Error in handle_new_message: " ++ str_of_exn e)].
Proof.
  intros Hexc. split.
  - destruct (channel_post update) as [post|] eqn:Hpost.
    2:{ unfold dispatch, handle_new_message. now rewrite Hpost. }
    destruct (text post) as [[|c message]|] eqn:Htext.
    1, 3: unfold dispatch, handle_new_message; now rewrite Hpost, Htext.
    rewrite (@handle_new_message_text update post (c :: message) tr Hpost Htext) by discriminate.
    unfold try_except, bind, logger_info, logger_error, emit.
    set (tr1 := tr ++ [_]).
    destruct (twitter_api tr1 (tweet_text channel (c :: message) (message_id post)))
      as [e|] eqn:Hapi.
    + rewrite (@post_to_twitter_reraises _ _ _ e Hapi (Hexc _ _ _ Hapi)).
      now rewrite (Hexc _ _ _ Hapi).
    + now rewrite (@post_to_twitter_returns _ _ _ Hapi).
  - intros post message e Hpost Htext Hne Hapi.
    rewrite (@handle_new_message_text update post message tr Hpost Htext Hne).
    unfold try_except, bind, logger_info, logger_error, emit.
    rewrite (@post_to_twitter_reraises _ _ _ e Hapi (Hexc _ _ _ Hapi)).
    rewrite (Hexc _ _ _ Hapi). simpl. rewrite <- !app_assoc. reflexivity.
Qed.

(** C9: for an update with no channel post, or whose channel post has no
    text (or an empty one), [handle_new_message] logs one warning and
    returns normally; nothing else happens, so neither [post_to_twitter]
    nor the Twitter client is called. *)
Theorem handle_new_message_skips (update : Update) (tr : list event) :
  channel_post update = None
  \/ (exists post, channel_post update = Some post
                   /\ (text post = None \/ text post = Some [])) ->
  dispatch update tr
  = (Returned tt,
     tr ++ [logged WARNING
              (py "Received an update with no text in channel_post. "
               ++ str_of_update update)]).
Proof.
  unfold dispatch, handle_new_message.
  intros [Hpost | (post & Hpost & [Htext | Htext])];
    rewrite Hpost, ?Htext; reflexivity.
Qed.

End DispatcherFacts.

Lemma handle_new_message_never_raises_witness :
  fst (handle_new_message (py "mychannel") (fun _ : str => true) (fun e => e)
         (fun _ => py "Update(...)") (fun _ _ => Some (py "403 Forbidden"))
         {| channel_post := Some {| text := Some (py "Hello"); message_id := 7 |} |}
         [])
  = Returned tt.
Proof.
  exact (proj1 (@handle_new_message_never_raises (py "mychannel") str
                  (fun _ => true) (fun e => e) (fun _ => py "Update(...)")
                  (fun _ _ => Some (py "403 Forbidden"))
                  {| channel_post := Some {| text := Some (py "Hello"); message_id := 7 |} |}
                  [] (fun _ _ _ _ => eq_refl))).
Defined.

(** C5, as stated, fails: [except Exception] does not catch an object
    that is not an instance of [Exception].  Here the raised objects are
    booleans, [false] standing for a [KeyboardInterrupt]; the client
    raises it, and the dispatcher raises it to its caller after the receipt
    and the call of the client, with no error logged. *)
Lemma handle_new_message_raises_interrupt :
  handle_new_message (py "mychannel") (fun e : bool => e)
    (fun _ => py "KeyboardInterrupt") (fun _ => py "Update(...)")
    (fun _ _ => Some false)
    {| channel_post := Some {| text := Some (py "Hello"); message_id := 7 |} |} []
  = (Raised false,
     [logged INFO (py "Received message from channel: Hello");
      create_tweet_called (tweet_text (py "mychannel") (py "Hello") 7)])
  /\ fst (handle_new_message (py "mychannel") (fun e : bool => e)
            (fun _ => py "KeyboardInterrupt") (fun _ => py "Update(...)")
            (fun _ _ => Some false)
            {| channel_post := Some {| text := Some (py "Hello"); message_id := 7 |} |}
            [])
     <> Returned tt.
Proof. split; [reflexivity|discriminate]. Qed.

Lemma handle_new_message_skips_witness :
  handle_new_message (py "mychannel") (fun _ : str => true) (fun e => e)
    (fun _ => py "Update(...)") (fun _ _ => Some (py "403 Forbidden"))
    {| channel_post := Some {| text := None; message_id := 7 |} |} []
  = (Returned tt,
     [logged WARNING
        (py "Received an update with no text in channel_post. Update(...)")]).
Proof.
  apply (@handle_new_message_skips (py "mychannel") str (fun _ => true)
           (fun e => e) (fun _ => py "Update(...)")
           (fun _ _ => Some (py "403 Forbidden"))
           {| channel_post := Some {| text := None; message_id := 7 |} |} []).
  right. eexists. split; [reflexivity|]. left. reflexivity.
Defined.

(** ** The retry wrapper *)

Section FetchFacts.

Variables exn updates : Type.
Variable isinstance_NetworkError : exn -> bool.
Variable get_updates : nat -> result exn updates.

Let retry := retry_if_exception_type (A := updates) isinstance_NetworkError.
Let loop := retrying get_updates (stop_after_attempt 5) retry.

(** The loop from attempt [a], with [d] attempts left after it: it makes
    [n] calls, at most [d + 1]; all but the last raised a [NetworkError];
    the last one is handed over, as [RetryError] if it raised a
    [NetworkError] too, which happens on the fifth attempt only. *)
Lemma retrying_from (d : nat) :
  forall a calls, a + d = 5 ->
  exists n,
    1 <= n <= S d
    /\ (forall k, k < n - 1 -> retry (get_updates (calls + k)) = true)
    /\ (retry (get_updates (calls + (n - 1))) = true -> n = S d)
    /\ forall fuel, d < fuel ->
         loop fuel a calls
         = Some (match get_updates (calls + (n - 1)) with
                 | Returned u => Returned u
                 | Raised e =>
                     if isinstance_NetworkError e
                     then Raised (RetryError (Raised e))
                     else Raised (reraised e)
                 end, calls + n).
Proof.
  induction d as [|d IH]; intros a calls Ha.
  - exists 1. split; [lia|]. split; [intros k Hk; lia|]. split; [reflexivity|].
    intros [|fuel] Hfuel; [lia|].
    replace a with 5 by lia. unfold loop. cbn [retrying].
    replace (calls + (1 - 1)) with calls by lia. rewrite Nat.add_1_r.
    unfold retry, retry_if_exception_type.
    destruct (get_updates calls) as [u|e]; [reflexivity|].
    destruct (isinstance_NetworkError e); reflexivity.
  - destruct (retry (get_updates calls)) eqn:Hretry.
    + destruct (IH (S a) (S calls) ltac:(lia)) as (n & Hn & Hbefore & Hlast & Hrun).
      exists (S n).
      assert (Hshift : forall k, S calls + k = calls + S k) by (intros; lia).
      replace (S n - 1) with (S (n - 1)) by lia.
      rewrite <- Hshift. split; [lia|]. split; [|split].
      * intros [|k] Hk.
        -- now rewrite Nat.add_0_r.
        -- rewrite <- Hshift. apply Hbefore. lia.
      * intros H. apply Hlast in H. lia.
      * intros [|fuel] Hfuel; [lia|]. unfold loop. cbn [retrying].
        fold retry. rewrite Hretry.
        assert (Hstop : stop_after_attempt 5 a = false).
        { unfold stop_after_attempt. apply Nat.leb_gt. lia. }
        rewrite Hstop. fold retry loop. rewrite Hrun by lia.
        do 2 f_equal. lia.
    + exists 1. split; [lia|]. split; [intros k Hk; lia|].
      replace (calls + (1 - 1)) with calls by lia. rewrite Nat.add_1_r.
      split; [congruence|].
      intros [|fuel] Hfuel; [lia|]. unfold loop. cbn [retrying].
      fold retry. rewrite Hretry.
      unfold retry, retry_if_exception_type in Hretry.
      destruct (get_updates calls) as [u|e]; [reflexivity|]. now rewrite Hretry.
Qed.

(** C3: a call of [get_updates_with_retry] calls [bot.get_updates] at
    least once and at most five times; every call but the last raised a
    [NetworkError], so a retry follows a [NetworkError] only; the outcome
    of the last call is handed over: a result is returned (the calls stop
    at the first success), an exception that is not a [NetworkError] is
    raised again at once, and a [NetworkError] is the last one only on the
    fifth attempt, where [RetryError] is raised.  In particular three
    [NetworkError]s followed by a success make exactly four calls and no
    exception escapes. *)
Theorem get_updates_with_retry_bounded (calls : nat) :
  (exists n outcome,
     (forall fuel, 5 <= fuel ->
        get_updates_with_retry isinstance_NetworkError get_updates fuel calls
        = Some (outcome, calls + n))
     /\ 1 <= n <= 5
     /\ (forall k, k < n - 1 ->
           exists e, get_updates (calls + k) = Raised e
                     /\ isinstance_NetworkError e = true)
     /\ (forall u, get_updates (calls + (n - 1)) = Returned u ->
           outcome = Returned u)
     /\ (forall e, get_updates (calls + (n - 1)) = Raised e ->
           isinstance_NetworkError e = false ->
           outcome = Raised (reraised e))
     /\ (forall e, get_updates (calls + (n - 1)) = Raised e ->
           isinstance_NetworkError e = true ->
           n = 5 /\ outcome = Raised (RetryError (Raised e))))
  /\ (forall e1 e2 e3 u,
        get_updates calls = Raised e1 -> isinstance_NetworkError e1 = true ->
        get_updates (calls + 1) = Raised e2 -> isinstance_NetworkError e2 = true ->
        get_updates (calls + 2) = Raised e3 -> isinstance_NetworkError e3 = true ->
        get_updates (calls + 3) = Returned u ->
        forall fuel, 5 <= fuel ->
          get_updates_with_retry isinstance_NetworkError get_updates fuel calls
          = Some (Returned u, calls + 4)).
Proof.
  split.
  - destruct (@retrying_from 4 1 calls eq_refl)
      as (n & Hn & Hbefore & Hlast & Hrun).
    exists n. eexists. split; [intros fuel Hfuel; apply Hrun; lia|].
    split; [exact Hn|]. split; [|split; [|split]].
    + intros k Hk. specialize (Hbefore k Hk).
      unfold retry, retry_if_exception_type in Hbefore.
      destruct (get_updates (calls + k)) as [u|e]; [discriminate|]. now exists e.
    + intros u Hu. now rewrite Hu.
    + intros e He Hnet. now rewrite He, Hnet.
    + intros e He Hnet. rewrite He, Hnet. split; [|reflexivity].
      apply Hlast. unfold retry. rewrite He. exact Hnet.
  - intros e1 e2 e3 u H1 N1 H2 N2 H3 N3 H4 fuel Hfuel.
    do 5 (destruct fuel as [|fuel]; [lia|]).
    unfold get_updates_with_retry. cbn [retrying].
    rewrite !Nat.add_1_r in *. 
    replace (calls + 2) with (S (S calls)) in * by lia.
    replace (calls + 3) with (S (S (S calls))) in * by lia.
    replace (calls + 4) with (S (S (S (S calls)))) by lia.
    rewrite H1, H2, H3, H4. cbn. rewrite N1, N2, N3. reflexivity.
Qed.

End FetchFacts.

Lemma get_updates_with_retry_bounded_witness :
  get_updates_with_retry (fun e : bool => e)
    (fun k => if k <? 3 then Raised true else Returned k) 5 0
  = Some (Returned 3, 4).
Proof.
  exact (proj2 (@get_updates_with_retry_bounded bool nat (fun e => e)
                  (fun k => if k <? 3 then Raised true else Returned k) 0)
           true true true 3 eq_refl eq_refl eq_refl eq_refl eq_refl eq_refl
           eq_refl 5 (le_n 5)).
Defined.

(** ** Dead code *)

Lemma runs_live (f : CallGraph.func) :
  CallGraph.runs f ->
  f <> CallGraph.get_updates_with_retry /\ f <> CallGraph.polling_loop.
Proof.
  induction 1 as [|f g Hf [IH1 IH2] Hg].
  - split; discriminate.
  - destruct f; simpl in Hg; try contradiction;
      repeat (destruct Hg as [<-|Hg]; [split; discriminate|]);
      contradiction.
Qed.

(** The retry wrapper is referred to from [polling_loop] only, and nothing
    refers to [polling_loop]. *)
Lemma only_polling_loop_fetches (f : CallGraph.func) :
  (In CallGraph.get_updates_with_retry (CallGraph.hands_control f) ->
   f = CallGraph.polling_loop)
  /\ ~ In CallGraph.polling_loop (CallGraph.hands_control f).
Proof.
  destruct f; simpl; split; intuition discriminate.
Qed.

(** C4: started from the module body, the program never runs
    [get_updates_with_retry] nor [polling_loop]: [main] hands the handlers
    to the application and calls [run_polling], and the nested
    [polling_loop], the only caller of the retry wrapper, is defined and
    left unused.  The dispatcher and the publisher do run. *)
Theorem retry_wrapper_never_runs :
  ~ CallGraph.runs CallGraph.get_updates_with_retry
  /\ ~ CallGraph.runs CallGraph.polling_loop
  /\ CallGraph.runs CallGraph.main
  /\ CallGraph.runs CallGraph.handle_new_message
  /\ CallGraph.runs CallGraph.post_to_twitter.
Proof.
  assert (Hmain : CallGraph.runs CallGraph.main).
  { apply CallGraph.runs_step with (f := CallGraph.module_body);
      [apply CallGraph.runs_module_body|simpl; auto]. }
  assert (Hhandle : CallGraph.runs CallGraph.handle_new_message).
  { apply CallGraph.runs_step with (f := CallGraph.main);
      [exact Hmain|simpl; auto]. }
  repeat split.
  - intros H. apply runs_live in H. tauto.
  - intros H. apply runs_live in H. tauto.
  - exact Hmain.
  - exact Hhandle.
  - apply CallGraph.runs_step with (f := CallGraph.handle_new_message);
      [exact Hhandle|simpl; auto].
Qed.

(** * Further properties of the code *)

(** ** The transformer at and beyond its limits *)

(** X1: the tweet fits in 280 code points exactly when the link leaves
    room for one character of body, or when the link is at most 277 long
    and the cleaned text at most 3. *)
Theorem tweet_text_fits_iff (channel text : str) (post_id : Z) :
  (len (tweet_text channel text post_id) <= MAX_TWEET_LENGTH)%Z
  <-> (1 <= allowed_text_length channel post_id
       \/ (-2 <= allowed_text_length channel post_id
           /\ len (clean_text channel text) <= 3))%Z.
Proof.
  rewrite len_tweet_text, len_tweet_body.
  pose proof (len_nonneg (clean_text channel text)) as Hn.
  unfold allowed_text_length, link_length, MAX_TWEET_LENGTH in *.
  set (n := len (clean_text channel text)) in *.
  set (L := len (telegram_post_link channel post_id)).
  destruct (n >? 280 - (L + 5))%Z eqn:Hcut.
  - apply Z.gtb_lt in Hcut.
    destruct (280 - (L + 5) <? 1)%Z eqn:H1;
      [apply Z.ltb_lt in H1|apply Z.ltb_ge in H1]; lia.
  - rewrite Z.gtb_ltb in Hcut. apply Z.ltb_ge in Hcut. lia.
Qed.

(** X2: when the link leaves room for one character of body, the tweet
    has 277 code points less the room the cleaned text leaves unused: at
    most 277, and exactly 277 as soon as the cleaned text fills the room or
    is cut.  Three of the 280 code points are never used. *)
Theorem tweet_text_headroom (channel text : str) (post_id : Z) :
  (1 <= allowed_text_length channel post_id)%Z ->
  len (tweet_text channel text post_id)
  = (277 - Z.max 0 (allowed_text_length channel post_id
                    - len (clean_text channel text)))%Z.
Proof.
  intros Hroom.
  rewrite len_tweet_text, len_tweet_body.
  unfold allowed_text_length, link_length, MAX_TWEET_LENGTH in *.
  destruct (_ >? _)%Z eqn:Hcut.
  - apply Z.gtb_lt in Hcut.
    destruct (_ <? 1)%Z eqn:H1; [apply Z.ltb_lt in H1; lia|lia].
  - rewrite Z.gtb_ltb in Hcut. apply Z.ltb_ge in Hcut. lia.
Qed.

Lemma tweet_text_headroom_witness :
  len (tweet_text (py "mychannel") (repeat 120%N 300) 42) = 277%Z.
Proof.
  rewrite (tweet_text_headroom (py "mychannel") (repeat 120%N 300) 42)
    by (vm_compute; discriminate).
  reflexivity.
Defined.

(** X3: when the link leaves no room at all ([allowed_text_length < 0])
    every text is cut, the empty one too: the body is the cleaned text
    without its last [1 - allowed_text_length] code points, followed by
    the ellipsis. *)
Theorem no_room_always_cut (channel text : str) (post_id : Z) :
  (allowed_text_length channel post_id < 0)%Z ->
  tweet_body channel text post_id
  = firstn (length (clean_text channel text)
            - Z.to_nat (1 - allowed_text_length channel post_id))
      (clean_text channel text) ++ [ellipsis].
Proof.
  intros Hneg.
  pose proof (len_nonneg (clean_text channel text)) as Hn.
  unfold tweet_body, slice_to.
  destruct (_ >? _)%Z eqn:Hcut;
    [|rewrite Z.gtb_ltb in Hcut; apply Z.ltb_ge in Hcut; lia].
  destruct (_ <? 0)%Z eqn:H1; [|apply Z.ltb_ge in H1; lia].
  do 2 f_equal. unfold len. lia.
Qed.

Lemma no_room_always_cut_witness :
  tweet_body (repeat 97%N 300) [] 1 = [ellipsis].
Proof.
  assert (Hneg : (allowed_text_length (repeat 97%N 300) 1 < 0)%Z)
    by (vm_compute; reflexivity).
  rewrite (no_room_always_cut (repeat 97%N 300) [] 1 Hneg). reflexivity.
Defined.

(** ** What the cleaning keeps *)

Lemma lstrip_keeps (s : str) :
  (forall c t, s = c :: t -> isspace c = false) -> lstrip s = s.
Proof.
  destruct s as [|c s]; [reflexivity|].
  intros H. simpl. now rewrite (H c s eq_refl).
Qed.

Lemma strip_keeps (s : str) :
  (forall c t, s = c :: t -> isspace c = false) ->
  (forall t c, s = t ++ [c] -> isspace c = false) ->
  strip s = s.
Proof.
  intros Hhead Hlast. unfold strip, rstrip.
  rewrite (lstrip_keeps Hhead), lstrip_keeps; [apply rev_involutive|].
  intros c t Hrev. apply (Hlast (rev t) c).
  rewrite <- (rev_involutive s), Hrev. reflexivity.
Qed.

Lemma length_replace_scan (old : str) (k : nat) (s : str) :
  length (replace_scan old [] k s) <= length s.
Proof.
  revert k. induction s as [|c s IH]; intros k; [reflexivity|].
  cbn [replace_scan]. destruct k as [|k].
  - destruct (startswith (c :: s) old); simpl.
    + specialize (IH (length old - 1)). lia.
    + specialize (IH 0). lia.
  - specialize (IH k). simpl. lia.
Qed.

Lemma length_lstrip (s : str) : length (lstrip s) <= length s.
Proof.
  induction s as [|c s IH]; simpl; [reflexivity|].
  destruct (isspace c); simpl; lia.
Qed.

Lemma length_strip (s : str) : length (strip s) <= length s.
Proof.
  unfold strip, rstrip. rewrite length_rev.
  etransitivity; [apply length_lstrip|]. rewrite length_rev.
  apply length_lstrip.
Qed.

(** X4: a text in which the mention does not occur and which neither
    starts nor ends with whitespace is left as it is by the cleaning; if
    it fits, the tweet is that text, two line feeds and the link. *)
Theorem plain_text_unchanged (channel text : str) (post_id : Z) :
  ~ Spec.occurs (mention channel) text ->
  (forall c t, text = c :: t -> isspace c = false) ->
  (forall t c, text = t ++ [c] -> isspace c = false) ->
  (len text <= allowed_text_length channel post_id)%Z ->
  clean_text channel text = text
  /\ tweet_text channel text post_id
     = text ++ [newline; newline] ++ telegram_post_link channel post_id.
Proof.
  intros Hno Hhead Hlast Hfits.
  assert (Hclean : clean_text channel text = text).
  { unfold clean_text.
    assert (Hrep : replace text (mention channel) [] = text).
    { rewrite replace_mention.
      apply (@removed_functional (mention channel) text).
      - apply replace_scan_removed, mention_nonempty.
      - now apply Spec.removed_none. }
    rewrite Hrep. now apply strip_keeps. }
  split; [exact Hclean|].
  unfold tweet_text, tweet_body. rewrite Hclean.
  destruct (_ >? _)%Z eqn:Hcut; [apply Z.gtb_lt in Hcut; lia|reflexivity].
Qed.

(** X5: the cleaning only deletes: the cleaned text is never longer than
    the raw text. *)
Theorem clean_text_not_longer (channel text : str) :
  (len (clean_text channel text) <= len text)%Z.
Proof.
  unfold clean_text, len. rewrite replace_mention.
  apply inj_le. etransitivity; [apply length_strip|apply length_replace_scan].
Qed.

(** ** The link *)

Lemma py_injective (s t : string) : py s = py t -> s = t.
Proof.
  unfold py. intros H.
  rewrite <- (string_of_list_ascii_of_string s),
          <- (string_of_list_ascii_of_string t).
  f_equal. revert H.
  generalize (list_ascii_of_string s) (list_ascii_of_string t).
  induction l as [|a l IH]; intros [|b l'] H; try discriminate; [reflexivity|].
  simpl in H. injection H as Hab Hl.
  f_equal; [|now apply IH].
  rewrite <- (ascii_N_embedding a), <- (ascii_N_embedding b). now f_equal.
Qed.

Lemma str_of_int_injective (m n : Z) : str_of_int m = str_of_int n -> m = n.
Proof.
  unfold str_of_int. intros H. apply py_injective in H.
  apply DecimalZ.to_int_inj.
  assert (Hparse : forall z, NilZero.int_of_string
                               (NilZero.string_of_int (Z.to_int z))
                             = Some (Z.to_int z)).
  { intros z. apply NilZero.isi; destruct z; simpl; try discriminate.
    - intros [= Hp]. revert Hp. apply DecimalPos.Unsigned.to_uint_nonnil.
    - intros [= Hp]. revert Hp. apply DecimalPos.Unsigned.to_uint_nonnil. }
  pose proof (Hparse m) as Hm. rewrite H, Hparse in Hm. now injection Hm.
Qed.

(** X6: for one channel, different posts get different links. *)
Theorem telegram_post_link_injective (channel : str) (post_id post_id' : Z) :
  telegram_post_link channel post_id = telegram_post_link channel post_id' ->
  post_id = post_id'.
Proof.
  unfold telegram_post_link. intros H.
  repeat apply app_inv_head in H.
  now apply str_of_int_injective.
Qed.

Lemma telegram_post_link_injective_witness :
  telegram_post_link (py "mychannel") 42 = telegram_post_link (py "mychannel") 42
  /\ 42%Z = 42%Z.
Proof.
  split; [reflexivity|].
  apply (@telegram_post_link_injective (py "mychannel") 42 42). reflexivity.
Defined.

(** ** The publisher and the dispatcher, case by case *)

Section MoreDispatcherFacts.

Variable channel : str.
Variable exn : Type.
Variable isinstance_Exception : exn -> bool.
Variable str_of_exn : exn -> str.
Variable str_of_update : Update -> str.
Variable twitter_api : list event -> str -> option exn.

Let publish := post_to_twitter channel isinstance_Exception str_of_exn twitter_api.
Let dispatch :=
  handle_new_message channel isinstance_Exception str_of_exn str_of_update twitter_api.

(** X7: [post_to_twitter] calls the Twitter client exactly once, with the
    text the transformer built, and ends as that call ends: it returns
    when the client returns and raises again the very exception the client
    raised, whatever its class.  It neither retries nor swallows. *)
Theorem post_to_twitter_ends_as_client (text : str) (post_id : Z) (tr : list event) :
  fst (publish text post_id tr)
  = match twitter_api tr (tweet_text channel text post_id) with
    | None => Returned tt
    | Some e => Raised e
    end
  /\ exists logs,
       snd (publish text post_id tr)
       = tr ++ create_tweet_called (tweet_text channel text post_id) :: logs
       /\ forall t, ~ In (create_tweet_called t) logs.
Proof.
  split.
  - unfold publish, post_to_twitter.
    unfold try_except, bind, create_tweet, logger_info, logger_error, raise, emit.
    cbv beta iota zeta.
    destruct (twitter_api tr _) as [e|]; [|reflexivity].
    destruct (isinstance_Exception e); reflexivity.
  - apply post_to_twitter_calls_api.
Qed.

(** On an update that carries a text the dispatcher adds the receipt, then
    what the publisher adds, then at most its own error record. *)
Lemma handle_new_message_text_events (update : Update) (post : Message)
    (message : str) (tr : list event) :
  channel_post update = Some post ->
  text post = Some message ->
  message <> [] ->
  exists own,
    snd (dispatch update tr)
    = snd (publish message (message_id post)
             (tr ++ [logged INFO (py "Received message from channel: " ++ message)]))
      ++ own
    /\ forall t, ~ In (create_tweet_called t) own.
Proof.
  intros Hpost Htext Hne. unfold dispatch, publish.
  rewrite (@handle_new_message_text channel exn isinstance_Exception str_of_exn
             str_of_update twitter_api update post message tr Hpost Htext Hne).
  unfold try_except, bind, logger_info, logger_error, emit.
  destruct (post_to_twitter _ _ _ _ message (message_id post) _)
    as [[[]|e] tr2].
  - exists []. simpl. rewrite app_nil_r. split; [reflexivity|intros t []].
  - destruct (isinstance_Exception e).
    + eexists. simpl. split; [reflexivity|].
      intros t [Hin|[]]. discriminate.
    + exists []. simpl. rewrite app_nil_r. split; [reflexivity|intros t []].
Qed.

(** X8: for an update that carries a text, whatever the client does,
    [handle_new_message] logs the receipt and then calls the client
    exactly once, with the tweet built from the text and the message id;
    what follows is logging only. *)
Theorem handle_new_message_posts_once (update : Update) (post : Message)
    (message : str) (tr : list event) :
  channel_post update = Some post ->
  text post = Some message ->
  message <> [] ->
  exists logs,
    snd (dispatch update tr)
    = tr ++ logged INFO (py "Received message from channel: " ++ message)
         :: create_tweet_called (tweet_text channel message (message_id post))
         :: logs
    /\ forall t, ~ In (create_tweet_called t) logs.
Proof.
  intros Hpost Htext Hne.
  destruct (handle_new_message_text_events update tr Hpost Htext Hne)
    as (own & Htr & Hown).
  destruct (@post_to_twitter_calls_api channel exn isinstance_Exception
              str_of_exn twitter_api message (message_id post)
              (tr ++ [logged INFO (py "Received message from channel: " ++ message)]))
    as (logs & Hpub & Hlogs).
  exists (logs ++ own). split.
  - rewrite Htr. unfold publish. rewrite Hpub, <- !app_assoc. reflexivity.
  - intros t Hin. apply in_app_or in Hin. destruct Hin as [Hin|Hin].
    + exact (Hlogs t Hin).
    + exact (Hown t Hin).
Qed.

(** X9: for an update that carries a text, when the client returns,
    [handle_new_message] returns after three events: the receipt, the call
    of the client and the log of the tweet. *)
Theorem handle_new_message_success (update : Update) (post : Message)
    (message : str) (tr : list event) :
  channel_post update = Some post ->
  text post = Some message ->
  message <> [] ->
  twitter_api (tr ++ [logged INFO (py "Received message from channel: " ++ message)])
    (tweet_text channel message (message_id post)) = None ->
  dispatch update tr
  = (Returned tt,
     tr ++ [logged INFO (py "Received message from channel: " ++ message);
            create_tweet_called (tweet_text channel message (message_id post));
            logged INFO (py "Posted to Twitter: "
                         ++ tweet_text channel message (message_id post))]).
Proof.
  intros Hpost Htext Hne Hapi. unfold dispatch.
  rewrite (@handle_new_message_text channel exn isinstance_Exception str_of_exn
             str_of_update twitter_api update post message tr Hpost Htext Hne).
  unfold try_except, bind, logger_info, emit.
  rewrite (@post_to_twitter_returns channel exn isinstance_Exception str_of_exn
             twitter_api _ _ _ Hapi).
  rewrite <- app_assoc. reflexivity.
Qed.

(** X10: [except Exception] does not catch everything: when the client
    raises an object that is not an instance of [Exception]
    ([KeyboardInterrupt], [SystemExit]), both the publisher and the
    dispatcher let it through, and neither logs an error. *)
Theorem handle_new_message_lets_through (update : Update) (post : Message)
    (message : str) (tr : list event) (e : exn) :
  channel_post update = Some post ->
  text post = Some message ->
  message <> [] ->
  twitter_api (tr ++ [logged INFO (py "Received message from channel: " ++ message)])
    (tweet_text channel message (message_id post)) = Some e ->
  isinstance_Exception e = false ->
  dispatch update tr
  = (Raised e,
     tr ++ [logged INFO (py "Received message from channel: " ++ message);
            create_tweet_called (tweet_text channel message (message_id post))]).
Proof.
  intros Hpost Htext Hne Hapi Hexc. unfold dispatch.
  rewrite (@handle_new_message_text channel exn isinstance_Exception str_of_exn
             str_of_update twitter_api update post message tr Hpost Htext Hne).
  unfold post_to_twitter.
  unfold try_except, bind, logger_info, emit, create_tweet.
  cbv beta iota zeta. rewrite Hapi. cbv beta iota. rewrite Hexc.
  cbv beta iota. rewrite Hexc, <- app_assoc. reflexivity.
Qed.

(** X17: whatever the update and whatever the client does, a text that
    [handle_new_message] hands to the Twitter client has at most 280 code
    points, provided the link to the post leaves room for one character of
    body. *)
Theorem handle_new_message_within_limit (update : Update) (tr : list event)
    (tweet : str) :
  (forall post, channel_post update = Some post ->
                (1 <= allowed_text_length channel (message_id post))%Z) ->
  In (create_tweet_called tweet) (snd (dispatch update tr)) ->
  In (create_tweet_called tweet) tr \/ (len tweet <= MAX_TWEET_LENGTH)%Z.
Proof.
  intros Hroom Hin.
  destruct (channel_post update) as [post|] eqn:Hpost.
  2:{ unfold dispatch, handle_new_message in Hin. rewrite Hpost in Hin.
      simpl in Hin. apply in_app_or in Hin.
      destruct Hin as [Hin|[Hin|[]]]; [now left|discriminate]. }
  destruct (text post) as [[|c message]|] eqn:Htext.
  1, 3: unfold dispatch, handle_new_message in Hin;
    rewrite Hpost, Htext in Hin;
    simpl in Hin; apply in_app_or in Hin;
    destruct Hin as [Hin|[Hin|[]]]; [now left|discriminate].
  destruct (@handle_new_message_text_events update post (c :: message) tr
              Hpost Htext ltac:(discriminate)) as (own & Htr & Hown).
  destruct (@post_to_twitter_calls_api channel exn isinstance_Exception
              str_of_exn twitter_api (c :: message) (message_id post)
              (tr ++ [logged INFO (py "Received message from channel: "
                                   ++ c :: message)]))
    as (logs & Hpub & Hlogs).
  rewrite Htr in Hin. unfold publish in Hin. rewrite Hpub in Hin.
  apply in_app_or in Hin. destruct Hin as [Hin|Hin]; [|now apply Hown in Hin].
  apply in_app_or in Hin. destruct Hin as [Hin|[Hin|Hin]].
  - apply in_app_or in Hin. destruct Hin as [Hin|[Hin|[]]];
      [now left|discriminate].
  - right. injection Hin as <-.
    specialize (Hroom post eq_refl).
    rewrite len_tweet_text, len_tweet_body.
    unfold allowed_text_length, link_length, MAX_TWEET_LENGTH in *.
    destruct (_ >? _)%Z eqn:Hcut.
    + destruct (_ <? 1)%Z eqn:H1; [apply Z.ltb_lt in H1; lia|lia].
    + rewrite Z.gtb_ltb in Hcut. apply Z.ltb_ge in Hcut. lia.
  - exfalso. exact (Hlogs tweet Hin).
Qed.

End MoreDispatcherFacts.

Lemma handle_new_message_posts_once_witness :
  exists logs,
    snd (handle_new_message (py "mychannel") (fun e : bool => e)
           (fun _ => py "rate limit") (fun _ => py "Update(...)")
           (fun _ _ => Some true)
           {| channel_post := Some {| text := Some (py "Hello"); message_id := 7 |} |}
           [])
    = [] ++ logged INFO (py "Received message from channel: " ++ py "Hello")
         :: create_tweet_called (tweet_text (py "mychannel") (py "Hello") 7)
         :: logs
    /\ forall t, ~ In (create_tweet_called t) logs.
Proof.
  apply (@handle_new_message_posts_once (py "mychannel") bool (fun e => e)
           (fun _ => py "rate limit") (fun _ => py "Update(...)")
           (fun _ _ => Some true)
           {| channel_post := Some {| text := Some (py "Hello"); message_id := 7 |} |}
           {| text := Some (py "Hello"); message_id := 7 |} (py "Hello") []);
    [reflexivity|reflexivity|discriminate].
Defined.

Lemma handle_new_message_success_witness :
  handle_new_message (py "mychannel") (fun e : bool => e)
    (fun _ => py "rate limit") (fun _ => py "Update(...)") (fun _ _ => None)
    {| channel_post := Some {| text := Some (py "Hello"); message_id := 7 |} |} []
  = (Returned tt,
     [] ++ [logged INFO (py "Received message from channel: " ++ py "Hello");
            create_tweet_called (tweet_text (py "mychannel") (py "Hello") 7);
            logged INFO (py "Posted to Twitter: "
                         ++ tweet_text (py "mychannel") (py "Hello") 7)]).
Proof.
  apply (@handle_new_message_success (py "mychannel") bool (fun e => e)
           (fun _ => py "rate limit") (fun _ => py "Update(...)")
           (fun _ _ => None)
           {| channel_post := Some {| text := Some (py "Hello"); message_id := 7 |} |}
           {| text := Some (py "Hello"); message_id := 7 |} (py "Hello") []);
    [reflexivity|reflexivity|discriminate|reflexivity].
Defined.

Lemma handle_new_message_lets_through_witness :
  handle_new_message (py "mychannel") (fun e : bool => e)
    (fun _ => py "interrupt") (fun _ => py "Update(...)") (fun _ _ => Some false)
    {| channel_post := Some {| text := Some (py "Hello"); message_id := 7 |} |} []
  = (Raised false,
     [] ++ [logged INFO (py "Received message from channel: " ++ py "Hello");
            create_tweet_called (tweet_text (py "mychannel") (py "Hello") 7)]).
Proof.
  apply (@handle_new_message_lets_through (py "mychannel") bool (fun e => e)
           (fun _ => py "interrupt") (fun _ => py "Update(...)")
           (fun _ _ => Some false)
           {| channel_post := Some {| text := Some (py "Hello"); message_id := 7 |} |}
           {| text := Some (py "Hello"); message_id := 7 |} (py "Hello") [] false);
    [reflexivity|reflexivity|discriminate|reflexivity|reflexivity].
Defined.

Lemma plain_text_unchanged_witness :
  clean_text (py "mychannel") (py "Hi") = py "Hi"
  /\ tweet_text (py "mychannel") (py "Hi") 42
     = py "Hi" ++ [newline; newline] ++ telegram_post_link (py "mychannel") 42.
Proof.
  apply plain_text_unchanged.
  - intros (a & b & H). apply (f_equal (@length N)) in H.
    rewrite !length_app in H. simpl in H. lia.
  - intros c t [= <- _]. reflexivity.
  - intros [|x [|y [|z t]]] c [=]; subst. reflexivity.
  - vm_compute. discriminate.
Defined.

(** ** The retry wrapper, outcome by outcome *)

Section MoreFetchFacts.

Variables exn updates : Type.
Variable isinstance_NetworkError : exn -> bool.
Variable get_updates : nat -> result exn updates.

(** X11: when [bot.get_updates] raises a [NetworkError] five times in a
    row, the wrapper gives up after exactly five calls and raises
    [RetryError], which carries the fifth failure. *)
Theorem get_updates_with_retry_gives_up (calls : nat) :
  (forall k, k < 5 ->
     exists e, get_updates (calls + k) = Raised e
               /\ isinstance_NetworkError e = true) ->
  forall fuel, 5 <= fuel ->
    get_updates_with_retry isinstance_NetworkError get_updates fuel calls
    = Some (Raised (RetryError (get_updates (calls + 4))), calls + 5).
Proof.
  intros Hall fuel Hfuel.
  destruct (@retrying_from exn updates isinstance_NetworkError get_updates
              4 1 calls eq_refl) as (n & Hn & _ & Hlast & Hrun).
  assert (Hn5 : n = 5).
  { apply Hlast. destruct (Hall (n - 1) ltac:(lia)) as (e & He & Hnet).
    rewrite He. exact Hnet. }
  subst n. unfold get_updates_with_retry. rewrite Hrun by lia.
  replace (calls + (5 - 1)) with (calls + 4) by lia.
  destruct (Hall 4 ltac:(lia)) as (e & He & Hnet). now rewrite He, Hnet.
Qed.

(** X12: the wrapper stops at the first call, among the first five, that
    does not raise a [NetworkError]: after [j] failures of that kind and
    such a call it has made [j + 1] calls, returns the result if there is
    one and raises the exception again otherwise. *)
Theorem get_updates_with_retry_stops (calls j : nat) :
  j < 5 ->
  (forall k, k < j ->
     exists e, get_updates (calls + k) = Raised e
               /\ isinstance_NetworkError e = true) ->
  retry_if_exception_type isinstance_NetworkError (get_updates (calls + j)) = false ->
  forall fuel, 5 <= fuel ->
    get_updates_with_retry isinstance_NetworkError get_updates fuel calls
    = Some (match get_updates (calls + j) with
            | Returned u => Returned u
            | Raised e => Raised (reraised e)
            end, calls + j + 1).
Proof.
  intros Hj Hbefore Hstop fuel Hfuel.
  destruct (@retrying_from exn updates isinstance_NetworkError get_updates
              4 1 calls eq_refl) as (n & Hn & Hretried & Hlast & Hrun).
  assert (Hnj : n - 1 = j).
  { destruct (Nat.lt_trichotomy (n - 1) j) as [Hlt|[Heq|Hgt]].
    - exfalso. destruct (Hbefore (n - 1) Hlt) as (e & He & Hnet).
      assert (n = 5) by (apply Hlast; rewrite He; exact Hnet). lia.
    - exact Heq.
    - exfalso. rewrite (Hretried j Hgt) in Hstop. discriminate. }
  unfold get_updates_with_retry. rewrite Hrun by lia. rewrite Hnj.
  replace (calls + n) with (calls + j + 1) by lia.
  unfold retry_if_exception_type in Hstop.
  destruct (get_updates (calls + j)) as [u|e]; [reflexivity|].
  now rewrite Hstop.
Qed.

End MoreFetchFacts.

Lemma get_updates_with_retry_gives_up_witness :
  get_updates_with_retry (fun e : bool => e) (fun k => Raised (A := nat) true) 7 0
  = Some (Raised (RetryError (Raised true)), 5).
Proof.
  apply (@get_updates_with_retry_gives_up bool nat (fun e => e)
           (fun k => Raised true) 0).
  - intros k _. exists true. split; reflexivity.
  - repeat constructor.
Defined.

Lemma get_updates_with_retry_stops_witness :
  get_updates_with_retry (fun e : bool => e)
    (fun k => if k <? 1 then Raised true else Raised (A := nat) false) 5 0
  = Some (Raised (reraised false), 2).
Proof.
  apply (@get_updates_with_retry_stops bool nat (fun e => e)
           (fun k => if k <? 1 then Raised true else Raised false) 0 1).
  - repeat constructor.
  - intros k Hk. exists true. destruct k; [split; reflexivity|lia].
  - reflexivity.
  - repeat constructor.
Defined.

(** ** Live and dead code *)

(** X13: apart from [get_updates_with_retry] and [polling_loop], every
    function of the file can run; those two are all the dead code. *)
Theorem runs_iff (f : CallGraph.func) :
  CallGraph.runs f
  <-> f <> CallGraph.get_updates_with_retry /\ f <> CallGraph.polling_loop.
Proof.
  split; [apply runs_live|].
  intros [Hfetch Hloop].
  assert (Hmain : CallGraph.runs CallGraph.main).
  { apply CallGraph.runs_step with (f := CallGraph.module_body);
      [apply CallGraph.runs_module_body|simpl; auto]. }
  assert (Hhealth : CallGraph.runs CallGraph.start_health_check).
  { apply CallGraph.runs_step with (f := CallGraph.main);
      [exact Hmain|simpl; auto]. }
  assert (Hhandle : CallGraph.runs CallGraph.handle_new_message).
  { apply CallGraph.runs_step with (f := CallGraph.main);
      [exact Hmain|simpl; auto]. }
  destruct f; try (exfalso; congruence).
  - apply CallGraph.runs_module_body.
  - exact Hhealth.
  - apply CallGraph.runs_step with (f := CallGraph.start_health_check);
      [exact Hhealth|simpl; auto].
  - apply CallGraph.runs_step with (f := CallGraph.start_health_check);
      [exact Hhealth|simpl; auto].
  - apply CallGraph.runs_step with (f := CallGraph.handle_new_message);
      [exact Hhandle|simpl; auto].
  - exact Hhandle.
  - apply CallGraph.runs_step with (f := CallGraph.main);
      [exact Hmain|simpl; auto].
  - exact Hmain.
Qed.

(** ** The supervising loop *)

Section MainFacts.

Variable exn : Type.
Variable isinstance_Exception : exn -> bool.
Variable isinstance_KeyboardInterrupt : exn -> bool.
Variable str_of_exn : exn -> str.
Variable format_exc : exn -> str.
Variable UnboundLocalError : exn.
Variable try_body : nat -> body_outcome exn.
Variable stop_running : nat -> option exn.

Let loop :=
  main_loop isinstance_Exception isinstance_KeyboardInterrupt str_of_exn
    format_exc UnboundLocalError try_body stop_running.

(** A pass that the loop survives: the body returned, or raised an
    instance of [Exception]. *)
Let survived (pass : nat) : Prop :=
  match try_body pass with
  | body_returned => True
  | body_raised e _ => isinstance_Exception e = true
  end.

(** What such a pass leaves in the trace: nothing when the body returned,
    two error records and a sleep of five seconds when it raised. *)
Let cooldown (pass : nat) : list main_event :=
  match try_body pass with
  | body_returned => []
  | body_raised e _ => critical_error str_of_exn format_exc e
  end.

(** Whether [application] is assigned after the passes below [pass]. *)
Let assigned_before (bound : bool) (first n : nat) : bool :=
  fold_left
    (fun b k => match try_body k with
                | body_returned => true
                | body_raised _ assigned => b || assigned
                end) (seq first n) bound.

Lemma main_loop_survives (n : nat) :
  forall fuel pass bound tr,
    (forall k, pass <= k < pass + n -> survived k) ->
    loop (n + fuel) pass bound tr
    = loop fuel (pass + n) (assigned_before bound pass n)
        (tr ++ flat_map cooldown (seq pass n)).
Proof.
  induction n as [|n IH]; intros fuel pass bound tr Hok.
  - simpl. now rewrite Nat.add_0_r, app_nil_r.
  - pose proof (Hok pass ltac:(lia)) as Hpass.
    unfold loop. cbn [Nat.add main_loop]. fold loop.
    unfold assigned_before. cbn [seq flat_map fold_left].
    fold (assigned_before
            (match try_body pass with
             | body_returned => true
             | body_raised _ assigned => bound || assigned
             end) (S pass) n).
    unfold survived in Hpass. unfold cooldown at 1.
    replace (pass + S n) with (S pass + n) by lia.
    destruct (try_body pass) as [|e assigned].
    + rewrite IH by (intros k Hk; apply Hok; lia). reflexivity.
    + rewrite Hpass.
      rewrite IH by (intros k Hk; apply Hok; lia).
      now rewrite <- app_assoc.
Qed.

(** X14: [main] does not end because of an [Exception], nor because the
    polling returns: as long as every pass through the [try] body returns
    or raises an instance of [Exception], the loop goes on; each such
    exception is logged twice at error level and followed by a sleep of
    five seconds, and a pass that returns is followed by the next one at
    once. *)
Theorem main_never_stops_on_exception (fuel : nat) :
  (forall k, k < fuel ->
     match try_body k with
     | body_returned => True
     | body_raised e _ => isinstance_Exception e = true
     end) ->
  main isinstance_Exception isinstance_KeyboardInterrupt str_of_exn format_exc
    UnboundLocalError try_body stop_running fuel
  = (still_looping,
     health_thread_started
       :: flat_map (fun k => match try_body k with
                             | body_returned => []
                             | body_raised e _ =>
                                 critical_error str_of_exn format_exc e
                             end) (seq 0 fuel)).
Proof.
  intros Hok. unfold main. fold loop.
  rewrite <- (Nat.add_0_r fuel) at 1.
  rewrite main_loop_survives by (intros k Hk; apply Hok; lia).
  reflexivity.
Qed.

(** X15: a [KeyboardInterrupt] on a pass where [application] is assigned,
    after passes that the loop survived, ends the program with exit code
    1: [main] calls [stop_running] and [stop], logs that the bot was
    stopped and exits. *)
Theorem main_exits_on_interrupt (pass : nat) (e : exn) (fuel : nat) :
  (forall k, k < pass ->
     match try_body k with
     | body_returned => True
     | body_raised e' _ => isinstance_Exception e' = true
     end) ->
  try_body pass = body_raised e true ->
  isinstance_Exception e = false ->
  isinstance_KeyboardInterrupt e = true ->
  stop_running pass = None ->
  pass < fuel ->
  main isinstance_Exception isinstance_KeyboardInterrupt str_of_exn format_exc
    UnboundLocalError try_body stop_running fuel
  = (exited 1,
     health_thread_started
       :: flat_map (fun k => match try_body k with
                             | body_returned => []
                             | body_raised e' _ =>
                                 critical_error str_of_exn format_exc e'
                             end) (seq 0 pass)
       ++ [stop_running_called; stop_called;
           main_logged INFO (py "Bot stopped by user.")]).
Proof.
  intros Hok Hbody Hexc Hint Hstop Hfuel. unfold main. fold loop.
  replace fuel with (pass + S (fuel - S pass)) by lia.
  rewrite main_loop_survives by (intros k Hk; apply Hok; lia).
  unfold loop. cbn [main_loop Nat.add].
  rewrite Hbody, Hexc, Hint, Hstop, orb_true_r.
  rewrite <- app_assoc. reflexivity.
Qed.

(** X16: a [KeyboardInterrupt] that arrives on the first pass before
    [application] is assigned does not reach [sys.exit(1)]: the handler
    reads the unassigned [application], and [UnboundLocalError] leaves
    [main]. *)
Theorem main_interrupt_before_assignment (e : exn) (fuel : nat) :
  try_body 0 = body_raised e false ->
  isinstance_Exception e = false ->
  isinstance_KeyboardInterrupt e = true ->
  0 < fuel ->
  main isinstance_Exception isinstance_KeyboardInterrupt str_of_exn format_exc
    UnboundLocalError try_body stop_running fuel
  = (propagated UnboundLocalError, [health_thread_started]).
Proof.
  intros Hbody Hexc Hint Hfuel. destruct fuel as [|fuel]; [lia|].
  unfold main. cbn [main_loop]. now rewrite Hbody, Hexc, Hint.
Qed.

End MainFacts.

Lemma handle_new_message_within_limit_witness :
  In (create_tweet_called (tweet_text (py "mychannel") (py "Hello") 7)) []
  \/ (len (tweet_text (py "mychannel") (py "Hello") 7) <= MAX_TWEET_LENGTH)%Z.
Proof.
  apply (@handle_new_message_within_limit (py "mychannel") bool (fun e => e)
           (fun _ => py "rate limit") (fun _ => py "Update(...)")
           (fun _ _ => None)
           {| channel_post := Some {| text := Some (py "Hello"); message_id := 7 |} |}
           []).
  - intros post [= <-]. vm_compute. discriminate.
  - right. left. reflexivity.
Defined.

Lemma main_never_stops_on_exception_witness :
  fst (main (fun e => e =? 0) (fun e => e =? 1) (fun _ => py "boom")
         (fun _ => py "Traceback") 0
         (fun k => if k <? 1 then body_raised 0 true else body_returned)
         (fun _ => None) 3)
  = still_looping.
Proof.
  rewrite (@main_never_stops_on_exception nat (fun e => e =? 0) (fun e => e =? 1)
             (fun _ => py "boom") (fun _ => py "Traceback") 0
             (fun k => if k <? 1 then body_raised 0 true else body_returned)
             (fun _ => None) 3).
  - reflexivity.
  - intros [|[|[|k]]] Hk; try exact I; reflexivity.
Defined.

Lemma main_exits_on_interrupt_witness :
  fst (main (fun e => e =? 0) (fun e => e =? 1) (fun _ => py "boom")
         (fun _ => py "Traceback") 0
         (fun k => if k <? 2 then body_raised 0 true else body_raised 1 true)
         (fun _ => None) 5)
  = exited 1.
Proof.
  rewrite (@main_exits_on_interrupt nat (fun e => e =? 0) (fun e => e =? 1)
             (fun _ => py "boom") (fun _ => py "Traceback") 0
             (fun k => if k <? 2 then body_raised 0 true else body_raised 1 true)
             (fun _ => None) 2 1 5).
  - reflexivity.
  - intros [|[|k]] Hk; try reflexivity. lia.
  - reflexivity.
  - reflexivity.
  - reflexivity.
  - reflexivity.
  - repeat constructor.
Defined.

Lemma main_interrupt_before_assignment_witness :
  main (fun e => e =? 0) (fun e => e =? 1) (fun _ => py "boom")
    (fun _ => py "Traceback") 0 (fun _ => body_raised 1 false)
    (fun _ => None) 4
  = (propagated 0, [health_thread_started]).
Proof.
  apply (@main_interrupt_before_assignment nat (fun e => e =? 0) (fun e => e =? 1)
           (fun _ => py "boom") (fun _ => py "Traceback") 0
           (fun _ => body_raised 1 false) (fun _ => None) 1 4);
    [reflexivity|reflexivity|reflexivity|repeat constructor].
Defined.
